(** * The todo controller (todo.controller.ts)

    A shallow embedding of the NestJS controller that owns the in-memory todo
    collection and its id counter, together with the ECMAScript built-ins it
    relies on: the [Number] coercion applied to the route parameter and the
    array methods [find], [findIndex], [push] and [splice].

    Modelling conventions.
    - A JavaScript string is a [string]: a sequence of code units below
      U+0100 (each [ascii] stands for the code unit of the same value).
    - The identifiers held by the store are integers minted from a counter;
      binary64 represents every integer up to 2^53 exactly, and they are
      modelled as [Z].  The value of [Number(id)] is a genuine binary64
      value, of type [number].
    - The module-level variables [todos] and [nextId] are the two fields of
      an explicit [Store] that each handler receives and returns.
    - [null] is [None]; a thrown exception is [Throw]. *)

From Stdlib Require Import ZArith Ascii String List Bool Lia Sorted.
From stdpp Require Import base list.
Import ListNotations.

#[local] Open Scope string_scope.
#[local] Open Scope list_scope.
#[local] Open Scope Z_scope.

(** ** ECMAScript built-ins *)

Module JS.

(** A Number value.  [Finite m e] is the real number [m * 2^e]; the two zeros
    are not told apart (the controller only ever compares with [===], which
    identifies them). *)
Inductive number : Type :=
| NaN
| Infinity (negative : bool)
| Finite (m e : Z).

Definition of_Z (z : Z) : number := Finite z 0.

(** [x === y] on Number values: [NaN] equals nothing, not even itself. *)
Definition strict_equal (x y : number) : bool :=
  match x, y with
  | Finite m1 e1, Finite m2 e2 =>
      let e := Z.min e1 e2 in
      m1 * 2 ^ (e1 - e) =? m2 * 2 ^ (e2 - e)
  | Infinity a, Infinity b => Bool.eqb a b
  | _, _ => false
  end.

(** *** Rounding a rational to binary64 (round to nearest, ties to even) *)

Definition round_half_even (n d : Z) : Z :=
  let q := n / d in
  let r := n mod d in
  if 2 * r <? d then q
  else if d <? 2 * r then q + 1
  else if Z.even q then q else q + 1.

(** The Number value for the rational [a / b], with [0 <= a] and [0 < b],
    negated when [neg].  The exponent [e] is the one that brings the
    significand [a / b / 2^e] into [2^52, 2^53), and no less than [-1074]
    (subnormal numbers); a result of [2^1024] or more is an infinity. *)
Definition binary64 (neg : bool) (a b : Z) : number :=
  if a =? 0 then Finite 0 0
  else
    let num e := a * 2 ^ Z.max 0 (- e) in
    let den e := b * 2 ^ Z.max 0 e in
    let e0 := Z.log2 a - Z.log2 b - 52 in
    let e1 := if num e0 / den e0 <? 2 ^ 52 then e0 - 1 else e0 in
    let e := Z.max e1 (-1074) in
    let m := round_half_even (num e) (den e) in
    if (971 <? e) || ((e =? 971) && (m =? 2 ^ 53)) then Infinity neg
    else Finite (if neg then - m else m) e.

(** *** StringToNumber *)

Definition code (c : ascii) : Z := Z.of_N (N_of_ascii c).

(** White space and line terminators among the code units below U+0100:
    TAB, LF, VT, FF, CR, SP and NBSP. *)
Definition is_white_space (c : ascii) : bool :=
  let n := code c in
  ((9 <=? n) && (n <=? 13)) || (n =? 32) || (n =? 160).

Definition is_decimal_digit (c : ascii) : bool :=
  let n := code c in (48 <=? n) && (n <=? 57).

Definition is_binary_digit (c : ascii) : bool :=
  let n := code c in (48 <=? n) && (n <=? 49).

Definition is_octal_digit (c : ascii) : bool :=
  let n := code c in (48 <=? n) && (n <=? 55).

Definition is_hex_digit (c : ascii) : bool :=
  let n := code c in
  ((48 <=? n) && (n <=? 57)) || ((65 <=? n) && (n <=? 70))
  || ((97 <=? n) && (n <=? 102)).

(** The value of a digit in any base up to sixteen. *)
Definition digit_value (c : ascii) : Z :=
  let n := code c in
  if n <=? 57 then n - 48 else if n <=? 70 then n - 55 else n - 87.

Definition digits_value (base : Z) (ds : list ascii) : Z :=
  fold_left (fun acc d => acc * base + digit_value d) ds 0.

(** The longest prefix whose characters satisfy [p], and the rest. *)
Fixpoint span (p : ascii -> bool) (l : list ascii) : list ascii * list ascii :=
  match l with
  | c :: l' =>
      if p c then let '(pre, post) := span p l' in (c :: pre, post)
      else ([], l)
  | [] => ([], [])
  end.

Definition trim (l : list ascii) : list ascii :=
  let l1 := snd (span is_white_space l) in
  rev (snd (span is_white_space (rev l1))).

(** A non-empty run of digits of the given class, and nothing else. *)
Definition all_digits (p : ascii -> bool) (l : list ascii) : bool :=
  match l with
  | [] => false
  | _ => forallb p l
  end.

(** ExponentPart (optional): [e] or [E], an optional sign, decimal digits. *)
Definition exponent_part (l : list ascii) : option Z :=
  match l with
  | [] => Some 0
  | c :: l1 =>
      if (code c =? 101) || (code c =? 69) then
        let '(neg, ds) :=
          match l1 with
          | s :: l2 =>
              if code s =? 43 then (false, l2)
              else if code s =? 45 then (true, l2)
              else (false, l1)
          | [] => (false, l1)
          end in
        if all_digits is_decimal_digit ds then
          Some (if neg then - digits_value 10 ds else digits_value 10 ds)
        else None
      else None
  end.

(** StrUnsignedDecimalLiteral. *)
Definition unsigned_decimal (neg : bool) (l : list ascii) : number :=
  if String.eqb (string_of_list_ascii l) "Infinity" then Infinity neg
  else
    let '(ip, r1) := span is_decimal_digit l in
    let '(fp, r2) :=
      match r1 with
      | c :: r => if code c =? 46 then span is_decimal_digit r else ([], r1)
      | [] => ([], r1)
      end in
    match ip ++ fp with
    | [] => NaN
    | ds =>
        match exponent_part r2 with
        | None => NaN
        | Some x =>
            let k := x - Z.of_nat (length fp) in
            let m := digits_value 10 ds in
            if 0 <=? k then binary64 neg (m * 10 ^ k) 1
            else binary64 neg m (10 ^ (- k))
        end
    end.

(** StrNumericLiteral: a non-decimal integer literal (never signed) or an
    optionally signed decimal literal. *)
Definition numeric_literal (l : list ascii) : number :=
  let non_decimal (p : ascii -> bool) (base : Z) (ds : list ascii) :=
    if all_digits p ds then binary64 false (digits_value base ds) 1 else NaN in
  match l with
  | z :: x :: ds =>
      if (code z =? 48) && ((code x =? 120) || (code x =? 88)) then non_decimal is_hex_digit 16 ds
      else if (code z =? 48) && ((code x =? 111) || (code x =? 79)) then non_decimal is_octal_digit 8 ds
      else if (code z =? 48) && ((code x =? 98) || (code x =? 66)) then non_decimal is_binary_digit 2 ds
      else if code z =? 43 then unsigned_decimal false (x :: ds)
      else if code z =? 45 then unsigned_decimal true (x :: ds)
      else unsigned_decimal false l
  | _ => unsigned_decimal false l
  end.

(** [Number(s)] for a string [s]: the empty or all-blank string is [0], a
    string that is not a StringNumericLiteral is [NaN], and the mathematical
    value of a literal is rounded to the nearest binary64 value. *)
Definition Number (s : string) : number :=
  match trim (list_ascii_of_string s) with
  | [] => Finite 0 0
  | l => numeric_literal l
  end.

(** *** Array methods *)

(** [l.find(p)]: the first element satisfying [p], [undefined] when there is
    none. *)
Fixpoint find {A : Type} (p : A -> bool) (l : list A) : option A :=
  match l with
  | x :: l' => if p x then Some x else find p l'
  | [] => None
  end.

Fixpoint findIndex_from {A : Type} (p : A -> bool) (l : list A) (k : Z) : Z :=
  match l with
  | x :: l' => if p x then k else findIndex_from p l' (k + 1)
  | [] => -1
  end.

(** [l.findIndex(p)]: the index of the first element satisfying [p], [-1]
    when there is none. *)
Definition findIndex {A : Type} (p : A -> bool) (l : list A) : Z :=
  findIndex_from p l 0.

(** [l.push(x)]: the array with [x] appended. *)
Definition push {A : Type} (l : list A) (x : A) : list A := l ++ [x].

(** [l.splice(start, deleteCount)]: a negative [start] counts from the end of
    the array, and both arguments are clamped to the array.  The result is
    the pair of the removed elements (what [splice] returns) and the array
    as it is left. *)
Definition splice {A : Type} (start deleteCount : Z) (l : list A) : list A * list A :=
  let len := Z.of_nat (length l) in
  let actualStart := if start <? 0 then Z.max (len + start) 0 else Z.min start len in
  let actualDeleteCount := Z.min (Z.max deleteCount 0) (len - actualStart) in
  (firstn (Z.to_nat actualDeleteCount) (skipn (Z.to_nat actualStart) l),
   firstn (Z.to_nat actualStart) l
     ++ skipn (Z.to_nat (actualStart + actualDeleteCount)) l).

End JS.

(** ** The controller's data *)

Record TodoItem : Type := {
  id : Z;
  description : string;
  isDone : bool
}.

(** The request bodies.  Nothing validates them, so a field the type declares
    may be missing: a missing field is [None]. *)
Module CreateTodoDto.
Record t : Type := { description : option string }.
End CreateTodoDto.

Module UpdateTodoDto.
Record t : Type := { description : option string; isDone : option bool }.
End UpdateTodoDto.

Inductive Exception : Type :=
| BadRequestException (msg : string)
| TypeError.

Inductive completion (A : Type) : Type :=
| Return (a : A)
| Throw (e : Exception).
Arguments Return {A} a.
Arguments Throw {A} e.

(** The body of the DELETE response. *)
Record Message : Type := { message : string }.

(** The module-level state: the array [todos] and the counter [nextId]. *)
Record Store : Type := {
  todos : list TodoItem;
  nextId : Z
}.

Definition initial : Store := {|
  todos := [ {| id := 1; description := "Buy groceries"; isDone := false |};
             {| id := 2; description := "Finish NestJS project"; isDone := false |};
             {| id := 3; description := "Walk the dog"; isDone := true |} ];
  nextId := 4
|}.

(** ** The handlers *)

(** The callback [t => t.id === todoId]. *)
Definition has_id (todoId : JS.number) (t : TodoItem) : bool :=
  JS.strict_equal (JS.of_Z (id t)) todoId.

Definition getAllTodos (s : Store) : list TodoItem := todos s.

Definition getTodoById (sid : string) (s : Store) : option TodoItem :=
  let todoId := JS.Number sid in
  let todo := JS.find (has_id todoId) (todos s) in
  match todo with
  | None => None
  | Some t => Some t
  end.

(** The guard [!createTodoDto || !createTodoDto.description] rejects a missing
    body, a missing description and the empty description (the three falsy
    cases). *)
Definition createTodo (createTodoDto : option CreateTodoDto.t) (s : Store)
  : completion TodoItem * Store :=
  let reject := (Throw (BadRequestException "Description cannot be empty"), s) in
  match createTodoDto with
  | None => reject
  | Some dto =>
      match CreateTodoDto.description dto with
      | None => reject
      | Some EmptyString => reject
      | Some d =>
          let newTodo := {| id := nextId s; description := d; isDone := false |} in
          (Return newTodo,
           {| todos := JS.push (todos s) newTodo; nextId := nextId s + 1 |})
      end
  end.

Definition updateTodo (sid : string) (updateTodoDto : UpdateTodoDto.t) (s : Store)
  : completion (option TodoItem) * Store :=
  let todoId := JS.Number sid in
  let todoIndex := JS.findIndex (has_id todoId) (todos s) in
  if todoIndex =? -1 then (Return None, s)
  else
    match todos s !! Z.to_nat todoIndex with
    | None => (Throw TypeError, s)
    | Some existingTodo =>
        let marked := {| id := id existingTodo;
                         description := description existingTodo;
                         isDone := true |} in
        let updated :=
          match UpdateTodoDto.description updateTodoDto with
          | Some d => {| id := id marked; description := d; isDone := isDone marked |}
          | None => marked
          end in
        (Return (Some updated),
         {| todos := <[Z.to_nat todoIndex := updated]> (todos s);
            nextId := nextId s |})
    end.

Definition deleteTodo (sid : string) (s : Store) : option Message * Store :=
  let todoId := JS.Number sid in
  let todoIndex := JS.findIndex (has_id todoId) (todos s) in
  let '(_, todos') := JS.splice todoIndex 1 (todos s) in
  (Some {| message := ("Todo with ID " ++ sid ++ " successfully deleted.")%string |},
   {| todos := todos'; nextId := nextId s |}).

(** ** Sequences of requests

    The routes of the controller, and the outcome each handler produces. *)

Inductive Request : Type :=
| GetAllTodos
| GetTodoById (sid : string)
| CreateTodo (body : option CreateTodoDto.t)
| UpdateTodo (sid : string) (body : UpdateTodoDto.t)
| DeleteTodo (sid : string).

Inductive Response : Type :=
| Listed (l : list TodoItem)
| Fetched (r : option TodoItem)
| Created (r : completion TodoItem)
| Updated (r : completion (option TodoItem))
| Deleted (r : option Message).

Definition handle (q : Request) (s : Store) : Response * Store :=
  match q with
  | GetAllTodos => (Listed (getAllTodos s), s)
  | GetTodoById sid => (Fetched (getTodoById sid s), s)
  | CreateTodo body => let '(r, s') := createTodo body s in (Created r, s')
  | UpdateTodo sid body => let '(r, s') := updateTodo sid body s in (Updated r, s')
  | DeleteTodo sid => let '(r, s') := deleteTodo sid s in (Deleted r, s')
  end.

Fixpoint run (qs : list Request) (s : Store) : list Response * Store :=
  match qs with
  | [] => ([], s)
  | q :: qs' =>
      let '(r, s1) := handle q s in
      let '(rs, s2) := run qs' s1 in
      (r :: rs, s2)
  end.

(** The id a successful create returned. *)
Definition created_id (r : Response) : option Z :=
  match r with
  | Created (Return t) => Some (id t)
  | _ => None
  end.

Definition created_ids (rs : list Response) : list Z := omap created_id rs.

(** A store is reachable when some sequence of requests leads to it from the
    initial one. *)
Definition reachable (s : Store) : Prop := exists qs, snd (run qs initial) = s.

(** The record [updateTodo] leaves in place of [x]. *)
Definition updated_record (x : TodoItem) (dto : UpdateTodoDto.t) : TodoItem :=
  {| id := id x;
     description := default (description x) (UpdateTodoDto.description dto);
     isDone := true |}.

(** The patch [{}]. *)
Definition empty_patch : UpdateTodoDto.t :=
  {| UpdateTodoDto.description := None; UpdateTodoDto.isDone := None |}.

(** ** The store invariant *)

(** Every id in the collection was minted before the current counter value,
    and no two records share an id. *)
Record store_inv (s : Store) : Prop := {
  ids_below_counter : Forall (fun t => id t < nextId s) (todos s);
  ids_distinct : NoDup (id <$> todos s)
}.

(** Weakens the bound that a [Forall] hypothesis puts on a list of ids. *)
Ltac weaken_bound H := eapply Forall_impl; [exact H |]; simpl; intros; lia.

(** ** The list component (TodoListComponent.tsx)

    The two function components that display the collection.  A rendered
    node is a text or a host element with its inline style and its children;
    a child carries the [key] it was given in the list it belongs to, if
    any.  The components read only [description] and [isDone] of a todo, so
    the controller's record stands for the interface [Todo]. *)

Module View.

#[warnings="-register-all"]
Inductive Node : Type :=
| Text (s : string)
| Element (tag : string) (style : list (string * string))
          (children : list (option Z * Node)).

Definition Todo : Type := TodoItem.

Definition TodoItem (todo : Todo) : Node :=
  let itemStyle :=
    [ ("textDecoration", if isDone todo then "line-through" else "none");
      ("color", if isDone todo then "grey" else "black");
      ("fontStyle", "italic") ] in
  Element "li" itemStyle
    [ (None, Text (description todo));
      (None, Element "span" []
               [ (None, Text " (");
                 (None, Text (if isDone todo then "Done" else "Pending"));
                 (None, Text ")") ]) ].

(** [todos.map((todo, index) => <TodoItem key={index} todo={todo} />)]. *)
Definition items (todos : list Todo) : list (option Z * Node) :=
  imap (fun index todo => (Some (Z.of_nat index), TodoItem todo)) todos.

(** The [todos] prop may be missing ([None]); [null] is [None]. *)
Definition TodoList (todos : option (list Todo)) : option Node :=
  match todos with
  | None => None
  | Some [] => None
  | Some l =>
      Some (Element "div" []
              [ (None, Element "h2" [] [ (None, Text "My TODO List") ]);
                (None, Element "ul" [] (items l)) ])
  end.

End View.

(** ** The built-ins on sample inputs *)

Example Number_decimal :
  JS.strict_equal (JS.of_Z 2) (JS.Number "2") = true
  /\ JS.strict_equal (JS.of_Z 2) (JS.Number " 2.0 ") = true
  /\ JS.strict_equal (JS.of_Z 2) (JS.Number "+20e-1") = true
  /\ JS.strict_equal (JS.of_Z 31) (JS.Number "0x1F") = true
  /\ JS.strict_equal (JS.of_Z 0) (JS.Number "") = true
  /\ JS.strict_equal (JS.of_Z 0) (JS.Number "-0") = true.
Proof. by vm_compute. Qed.

Example Number_not_numeric :
  JS.Number "abc" = JS.NaN /\ JS.Number "12px" = JS.NaN /\ JS.Number "1_0" = JS.NaN
  /\ JS.Number "-0x10" = JS.NaN /\ JS.Number "." = JS.NaN /\ JS.Number "1e" = JS.NaN
  /\ JS.Number "infinity" = JS.NaN.
Proof. by vm_compute. Qed.

Example Number_rounds :
  JS.Number "0.1" = JS.Finite 7205759403792794 (-56)
  /\ JS.Number "9007199254740993" = JS.Finite (2 ^ 52) 1
  /\ JS.Number "1.7976931348623157e308" = JS.Finite (2 ^ 53 - 1) 971
  /\ JS.Number "1e400" = JS.Infinity false
  /\ JS.Number "-Infinity" = JS.Infinity true
  /\ JS.Number "5e-324" = JS.Finite 1 (-1074)
  /\ JS.strict_equal (JS.of_Z 1) (JS.Number "1.00000000000000000001") = true
  /\ JS.strict_equal (JS.of_Z 1) (JS.Number "1.5") = false.
Proof. by vm_compute. Qed.

Example splice_samples :
  JS.splice 1 1 [10; 20; 30] = ([20], [10; 30])
  /\ JS.splice (-1) 1 [10; 20; 30] = ([30], [10; 20])
  /\ JS.splice (-1) 1 ([] : list Z) = ([], [])
  /\ JS.splice 7 1 [10; 20; 30] = ([], [10; 20; 30])
  /\ JS.splice (-7) 2 [10; 20; 30] = ([10; 20], [30]).
Proof. by vm_compute. Qed.

Example findIndex_samples :
  JS.findIndex (Z.eqb 20) [10; 20; 30; 20] = 1
  /\ JS.findIndex (Z.eqb 40) [10; 20; 30] = -1
  /\ JS.find (Z.eqb 40) [10; 20; 30] = None.
Proof. by vm_compute. Qed.

(** ** Facts about the built-ins *)

Lemma strict_equal_NaN_r (x : JS.number) : JS.strict_equal x JS.NaN = false.
Proof. by destruct x. Qed.

(** At most one integer is [===] to a given Number value. *)
Lemma strict_equal_of_Z_inj (a b : Z) (n : JS.number) :
  JS.strict_equal (JS.of_Z a) n = true ->
  JS.strict_equal (JS.of_Z b) n = true ->
  a = b.
Proof.
  destruct n as [| neg | m e]; simpl; try discriminate.
  intros Ha Hb.
  apply Z.eqb_eq in Ha, Hb.
  assert (Hpos : 0 < 2 ^ (0 - Z.min 0 e)) by (apply Z.pow_pos_nonneg; lia).
  apply (Z.mul_cancel_r _ _ (2 ^ (0 - Z.min 0 e))); [lia | congruence].
Qed.

Section FindIndex.
Context {A : Type} (p : A -> bool).

Lemma findIndex_from_none (l : list A) (k : Z) :
  Forall (fun x => p x = false) l -> JS.findIndex_from p l k = -1.
Proof.
  intros H. revert k.
  induction H as [| x l Hx _ IH]; intros k; simpl; [done |].
  rewrite Hx. apply IH.
Qed.

(** A result other than [-1] is the position of the first match. *)
Lemma findIndex_from_found (l : list A) (k : Z) :
  0 <= k ->
  JS.findIndex_from p l k <> -1 ->
  exists (i : nat) (x : A),
    JS.findIndex_from p l k = k + Z.of_nat i
    /\ l !! i = Some x /\ p x = true
    /\ Forall (fun y => p y = false) (take i l).
Proof.
  revert k.
  induction l as [| y l IH]; intros k Hk; simpl; [done |].
  destruct (p y) eqn:Hy.
  - intros _. exists 0%nat, y. repeat split; try done. lia.
  - intros Hne.
    destruct (IH (k + 1) ltac:(lia) Hne) as (i & x & Hi & Hx & Hpx & Hbefore).
    exists (S i), x. repeat split; try done; [lia |].
    simpl. by constructor.
Qed.

Lemma findIndex_none (l : list A) :
  Forall (fun x => p x = false) l -> JS.findIndex p l = -1.
Proof. apply findIndex_from_none. Qed.

Lemma findIndex_found (l : list A) :
  JS.findIndex p l <> -1 ->
  exists (i : nat) (x : A),
    JS.findIndex p l = Z.of_nat i
    /\ l !! i = Some x /\ p x = true
    /\ Forall (fun y => p y = false) (take i l).
Proof.
  intros H.
  destruct (findIndex_from_found l 0 ltac:(lia) H) as (i & x & Hi & Hrest).
  exists i, x. split; [| done]. unfold JS.findIndex. lia.
Qed.

(** If some element matches, [findIndex] does not answer [-1]. *)
Lemma findIndex_elem (l : list A) (x : A) :
  x ∈ l -> p x = true -> JS.findIndex p l <> -1.
Proof.
  intros Hin Hpx Hnone.
  unfold JS.findIndex in Hnone.
  assert (Hgen : forall k, 0 <= k -> JS.findIndex_from p l k <> -1).
  { clear Hnone. induction Hin as [x l | x y l _ IH]; intros k Hk; simpl.
    - rewrite Hpx. lia.
    - destruct (p y); [lia |]. apply IH; [done | lia]. }
  by apply (Hgen 0).
Qed.

Lemma find_none (l : list A) :
  Forall (fun x => p x = false) l -> JS.find p l = None.
Proof.
  induction 1 as [| x l Hx _ IH]; simpl; [done |]. by rewrite Hx.
Qed.
End FindIndex.

Section Splice.
Context {A : Type}.

(** [splice(-1, 1)] drops the last element, and nothing of an empty array. *)
Lemma splice_minus_one (l : list A) : snd (JS.splice (-1) 1 l) = removelast l.
Proof.
  unfold JS.splice. simpl snd.
  destruct (decide (l = [])) as [-> | Hne]; [done |].
  assert (0 < length l)%nat by (destruct l; [done | simpl; lia]).
  replace (-1 <? 0) with true by done.
  rewrite removelast_firstn_len.
  replace (Z.to_nat (Z.max (Z.of_nat (length l) + -1) 0)) with (pred (length l)) by lia.
  rewrite drop_ge; [apply app_nil_r | lia].
Qed.

(** Whatever the arguments, [splice] leaves a sublist of the array. *)
Lemma splice_sublist (start deleteCount : Z) (l : list A) :
  sublist (snd (JS.splice start deleteCount l)) l.
Proof.
  unfold JS.splice. simpl snd.
  set (a := Z.to_nat _). set (b := Z.to_nat _).
  assert (Hab : (a <= b)%nat) by (subst a b; destruct (Z.ltb_spec start 0); lia).
  rewrite <- (take_drop a l) at 3.
  apply sublist_app; [done |].
  replace b with (a + (b - a))%nat by lia.
  rewrite <- drop_drop. apply sublist_drop.
Qed.
End Splice.

(** ** What each handler does to the store *)

Lemma updateTodo_absent (sid : string) (dto : UpdateTodoDto.t) (s : Store) :
  JS.findIndex (has_id (JS.Number sid)) (todos s) = -1 ->
  updateTodo sid dto s = (Return None, s).
Proof. intros H. unfold updateTodo. by rewrite H. Qed.

Lemma updateTodo_present (sid : string) (dto : UpdateTodoDto.t) (s : Store)
      (i : nat) (x : TodoItem) :
  JS.findIndex (has_id (JS.Number sid)) (todos s) = Z.of_nat i ->
  todos s !! i = Some x ->
  updateTodo sid dto s
  = (Return (Some (updated_record x dto)),
     {| todos := <[i := updated_record x dto]> (todos s); nextId := nextId s |}).
Proof.
  intros Hi Hx. unfold updateTodo. rewrite Hi.
  replace (Z.of_nat i =? -1) with false by (symmetry; apply Z.eqb_neq; lia).
  rewrite Nat2Z.id, Hx. unfold updated_record.
  by destruct (UpdateTodoDto.description dto).
Qed.

(** [updateTodo] never reaches past the end of the array: it answers [null]
    or rewrites the first record whose id matches, and never throws. *)
Lemma updateTodo_cases (sid : string) (dto : UpdateTodoDto.t) (s : Store) :
  updateTodo sid dto s = (Return None, s)
  \/ exists (i : nat) (x : TodoItem),
       todos s !! i = Some x
       /\ has_id (JS.Number sid) x = true
       /\ updateTodo sid dto s
          = (Return (Some (updated_record x dto)),
             {| todos := <[i := updated_record x dto]> (todos s);
                nextId := nextId s |}).
Proof.
  destruct (decide (JS.findIndex (has_id (JS.Number sid)) (todos s) = -1)) as [H | H].
  - left. by apply updateTodo_absent.
  - right. destruct (findIndex_found _ _ H) as (i & x & Hi & Hx & Hp & _).
    exists i, x. repeat split; try done. by apply updateTodo_present.
Qed.

Lemma deleteTodo_eq (sid : string) (s : Store) :
  deleteTodo sid s
  = (Some {| message := ("Todo with ID " ++ sid ++ " successfully deleted.")%string |},
     {| todos := snd (JS.splice (JS.findIndex (has_id (JS.Number sid)) (todos s)) 1 (todos s));
        nextId := nextId s |}).
Proof. unfold deleteTodo. by destruct (JS.splice _ _ _). Qed.

(** [createTodo] either rejects and leaves the store alone, or appends one
    record whose id is the counter and bumps the counter by one. *)
Lemma createTodo_cases (body : option CreateTodoDto.t) (s : Store) :
  createTodo body s = (Throw (BadRequestException "Description cannot be empty"), s)
  \/ exists d : string,
       d <> ""
       /\ createTodo body s
          = (Return {| id := nextId s; description := d; isDone := false |},
             {| todos := todos s ++ [ {| id := nextId s; description := d; isDone := false |} ];
                nextId := nextId s + 1 |}).
Proof.
  destruct body as [[[[| c d] |]] |]; simpl; auto.
  right. by exists (String c d).
Qed.

(** ** The invariant is kept by every handler *)

Lemma initial_inv : store_inv initial.
Proof.
  split; simpl.
  - repeat constructor.
  - by apply (bool_decide_unpack _).
Qed.

Lemma createTodo_inv (body : option CreateTodoDto.t) (s : Store) :
  store_inv s -> store_inv (snd (createTodo body s)).
Proof.
  intros [Hlt Hnd].
  destruct (createTodo_cases body s) as [-> | (d & _ & ->)]; [done |].
  split; simpl.
  - apply Forall_app. split.
    + eapply Forall_impl; [exact Hlt |]. simpl. intros. lia.
    + repeat constructor. simpl. lia.
  - rewrite fmap_app. apply NoDup_app. repeat split; [done | | apply NoDup_singleton].
    intros k Hk Hk'. apply list_elem_of_singleton in Hk'. subst k.
    apply list_elem_of_fmap in Hk as (t & Ht & Hin).
    rewrite Forall_forall in Hlt. specialize (Hlt t Hin). simpl in Ht. lia.
Qed.

Lemma updateTodo_ids (sid : string) (dto : UpdateTodoDto.t) (s : Store) :
  id <$> todos (snd (updateTodo sid dto s)) = id <$> todos s
  /\ nextId (snd (updateTodo sid dto s)) = nextId s.
Proof.
  destruct (updateTodo_cases sid dto s) as [-> | (i & x & Hx & _ & ->)]; [done |].
  simpl. split; [| done].
  rewrite list_fmap_insert. simpl. apply list_insert_id.
  by rewrite list_lookup_fmap, Hx.
Qed.

Lemma updateTodo_inv (sid : string) (dto : UpdateTodoDto.t) (s : Store) :
  store_inv s -> store_inv (snd (updateTodo sid dto s)).
Proof.
  intros [Hlt Hnd].
  destruct (updateTodo_ids sid dto s) as [Hids Hnext].
  split.
  - rewrite Hnext.
    apply (Forall_fmap id (fun k => k < nextId s)).
    rewrite Hids. by apply Forall_fmap.
  - by rewrite Hids.
Qed.

Lemma deleteTodo_inv (sid : string) (s : Store) :
  store_inv s -> store_inv (snd (deleteTodo sid s)).
Proof.
  intros [Hlt Hnd]. rewrite deleteTodo_eq. simpl.
  pose proof (splice_sublist (JS.findIndex (has_id (JS.Number sid)) (todos s)) 1 (todos s))
    as Hsub.
  split; simpl.
  - rewrite Forall_forall in Hlt |- *.
    intros t Ht. apply Hlt. eapply elem_of_sublist; eauto.
  - eapply sublist_NoDup; [exact Hnd |]. by apply fmap_sublist.
Qed.

Lemma handle_inv (q : Request) (s : Store) :
  store_inv s -> store_inv (snd (handle q s)).
Proof.
  intros H. destruct q as [| sid | body | sid body | sid]; unfold handle; try done.
  - pose proof (createTodo_inv body s H). by destruct (createTodo body s).
  - pose proof (updateTodo_inv sid body s H). by destruct (updateTodo sid body s).
  - pose proof (deleteTodo_inv sid s H). by destruct (deleteTodo sid s).
Qed.

Lemma run_cons (q : Request) (qs : list Request) (s : Store) :
  run (q :: qs) s
  = (fst (handle q s) :: fst (run qs (snd (handle q s))),
     snd (run qs (snd (handle q s)))).
Proof. simpl. destruct (handle q s) as [r s1]. simpl. by destruct (run qs s1). Qed.

Lemma run_app (qs1 qs2 : list Request) (s : Store) :
  run (qs1 ++ qs2) s
  = (fst (run qs1 s) ++ fst (run qs2 (snd (run qs1 s))),
     snd (run qs2 (snd (run qs1 s)))).
Proof.
  revert s. induction qs1 as [| q qs1 IH]; intros s.
  - simpl. by destruct (run qs2 s).
  - rewrite <- app_comm_cons, !run_cons, IH. done.
Qed.

Lemma run_inv (qs : list Request) (s : Store) :
  store_inv s -> store_inv (snd (run qs s)).
Proof.
  revert s. induction qs as [| q qs IH]; intros s H; [done |].
  rewrite run_cons. simpl. apply IH. by apply handle_inv.
Qed.

Lemma reachable_inv (s : Store) : reachable s -> store_inv s.
Proof. intros [qs <-]. apply run_inv, initial_inv. Qed.

(** ** The counter along a run *)

(** A handler never lowers the counter, and a successful create returns the
    counter's value and raises it by exactly one. *)
Lemma handle_counter (q : Request) (s : Store) :
  nextId s <= nextId (snd (handle q s))
  /\ forall i, created_id (fst (handle q s)) = Some i ->
       i = nextId s /\ nextId (snd (handle q s)) = nextId s + 1.
Proof.
  destruct q as [| sid | body | sid body | sid]; unfold handle.
  - simpl. split; [lia | done].
  - simpl. split; [lia | done].
  - destruct (createTodo_cases body s) as [-> | (d & _ & ->)]; simpl.
    + split; [lia | done].
    + split; [lia |]. intros i [= <-]. done.
  - pose proof (updateTodo_ids sid body s) as [_ Hn].
    destruct (updateTodo sid body s) as [r s']. simpl in *.
    split; [lia | done].
  - rewrite deleteTodo_eq. simpl. split; [lia | done].
Qed.

Lemma created_ids_cons (r : Response) (rs : list Response) :
  created_ids (r :: rs)
  = match created_id r with
    | Some i => i :: created_ids rs
    | None => created_ids rs
    end.
Proof. reflexivity. Qed.

Lemma created_ids_app (rs1 rs2 : list Response) :
  created_ids (rs1 ++ rs2) = created_ids rs1 ++ created_ids rs2.
Proof. apply omap_app. Qed.

(** Along any run the counter only grows, and the ids handed out lie between
    its first and last value and strictly increase. *)
Lemma run_created (qs : list Request) (s : Store) :
  nextId s <= nextId (snd (run qs s))
  /\ Forall (fun i => nextId s <= i < nextId (snd (run qs s)))
            (created_ids (fst (run qs s)))
  /\ StronglySorted Z.lt (created_ids (fst (run qs s))).
Proof.
  revert s. induction qs as [| q qs IH]; intros s.
  - simpl. repeat split; [lia | constructor | constructor].
  - rewrite run_cons. simpl fst. simpl snd.
    destruct (handle_counter q s) as [Hle Hcreated].
    destruct (IH (snd (handle q s))) as (Hle' & Hbound & Hsorted).
    rewrite created_ids_cons.
    destruct (created_id (fst (handle q s))) as [i |] eqn:Hi.
    + destruct (Hcreated i eq_refl) as [-> Hnext].
      repeat split; [lia | |].
      * constructor; [lia |]. weaken_bound Hbound.
      * constructor; [done |]. weaken_bound Hbound.
    + repeat split; [lia | | done]. weaken_bound Hbound.
Qed.

Lemma StronglySorted_lt_NoDup (l : list Z) : StronglySorted Z.lt l -> NoDup l.
Proof.
  induction 1 as [| x l _ IH Hx]; constructor; [| done].
  intros Hin. rewrite Forall_forall in Hx. specialize (Hx x Hin). lia.
Qed.

Lemma StronglySorted_lt_app (l1 l2 : list Z) (k : Z) :
  StronglySorted Z.lt l1 -> StronglySorted Z.lt l2 ->
  Forall (fun i => i < k) l1 -> Forall (fun i => k <= i) l2 ->
  StronglySorted Z.lt (l1 ++ l2).
Proof.
  intros H1 H2 Hlt Hge.
  induction H1 as [| x l1 _ IH Hx]; simpl; [done |].
  apply Forall_cons in Hlt as [Hxk Hlt].
  constructor; [by apply IH |].
  apply Forall_app. split; [done |]. weaken_bound Hge.
Qed.

(** ** The claims *)

(** C1.  A patch that omits [isDone] should leave [isDone] alone, and the
    empty patch should leave the record as it was.  The handler instead
    assigns [isDone = true] before it looks at the patch: on the initial
    store, record 1 is pending, and after [updateTodo("1", {})] it is done. *)
Theorem updateTodo_empty_patch_marks_done :
  getTodoById "1" initial
  = Some {| id := 1; description := "Buy groceries"; isDone := false |}
  /\ updateTodo "1" empty_patch initial
     = (Return (Some {| id := 1; description := "Buy groceries"; isDone := true |}),
        {| todos := [ {| id := 1; description := "Buy groceries"; isDone := true |};
                      {| id := 2; description := "Finish NestJS project"; isDone := false |};
                      {| id := 3; description := "Walk the dog"; isDone := true |} ];
           nextId := 4 |})
  /\ getTodoById "1" (snd (updateTodo "1" empty_patch initial))
     = Some {| id := 1; description := "Buy groceries"; isDone := true |}.
Proof. by vm_compute. Qed.

(** C2.  Deleting an id that resolves to no record should signal NotFound and
    remove nothing.  On the initial store no record has id 99, yet
    [deleteTodo("99")] answers with its success message and the last record
    (id 3) is gone. *)
Theorem deleteTodo_missing_id_removes_last :
  getTodoById "99" initial = None
  /\ JS.findIndex (has_id (JS.Number "99")) (todos initial) = -1
  /\ deleteTodo "99" initial
     = (Some {| message := "Todo with ID 99 successfully deleted." |},
        {| todos := [ {| id := 1; description := "Buy groceries"; isDone := false |};
                      {| id := 2; description := "Finish NestJS project"; isDone := false |} ];
           nextId := 4 |}).
Proof. by vm_compute. Qed.

(** C3.  An id that does not parse should be refused as an invalid
    identifier.  ["abc"] coerces to [NaN], which is then matched against the
    collection: on every store the lookup and the update answer [null] as
    for an unknown id, and the delete reports success and drops the last
    record.  No handler throws. *)
Theorem unparseable_id_is_coerced (s : Store) (dto : UpdateTodoDto.t) :
  JS.Number "abc" = JS.NaN
  /\ getTodoById "abc" s = None
  /\ updateTodo "abc" dto s = (Return None, s)
  /\ deleteTodo "abc" s
     = (Some {| message := "Todo with ID abc successfully deleted." |},
        {| todos := removelast (todos s); nextId := nextId s |}).
Proof.
  assert (HN : JS.Number "abc" = JS.NaN) by (by vm_compute).
  assert (Hnone : Forall (fun t => has_id JS.NaN t = false) (todos s)).
  { apply Forall_forall. intros t _. apply strict_equal_NaN_r. }
  split; [done |]. split; [| split].
  - unfold getTodoById. rewrite HN. by rewrite (find_none _ _ Hnone).
  - apply updateTodo_absent. rewrite HN. by apply findIndex_none.
  - rewrite deleteTodo_eq, HN, (findIndex_none _ _ Hnone), splice_minus_one. done.
Qed.

(** C4.  Split any sequence of requests issued to the initial store in two.
    The ids returned by the successful creates of the whole sequence, in
    creation order, strictly increase, hence are pairwise distinct; the
    counter after the second part is not below the counter after the first;
    and an id returned in the second part is none of the ids returned in
    the first, none of the seeded ids, and none of the ids held by the store
    when the second part starts.  In particular, whatever record a delete
    removes, no later create returns the id of a record that was in the
    store before that delete. *)
Theorem created_ids_strictly_increase (before after : list Request) :
  let s1 := snd (run before initial) in
  let ids1 := created_ids (fst (run before initial)) in
  let s2 := snd (run after s1) in
  let ids2 := created_ids (fst (run after s1)) in
  created_ids (fst (run (before ++ after) initial)) = ids1 ++ ids2
  /\ StronglySorted Z.lt (ids1 ++ ids2)
  /\ NoDup (ids1 ++ ids2)
  /\ nextId s1 <= nextId s2
  /\ (forall i, i ∈ ids2 ->
        (i ∉ ids1) /\ (i ∉ id <$> todos initial) /\ (i ∉ id <$> todos s1))
  /\ (forall sid t, t ∈ todos s1 ->
        id t ∉ created_ids (fst (run after (snd (deleteTodo sid s1))))).
Proof.
  intros s1 ids1 s2 ids2.
  destruct (run_created before initial) as (Hle1 & Hb1 & Hs1).
  destruct (run_created after s1) as (Hle2 & Hb2 & Hs2).
  fold s1 in Hle1, Hb1. fold ids1 in Hb1, Hs1.
  fold s2 in Hle2, Hb2. fold ids2 in Hb2, Hs2.
  assert (Hinv : store_inv s1) by apply run_inv, initial_inv.
  assert (Hsorted : StronglySorted Z.lt (ids1 ++ ids2)).
  { apply (StronglySorted_lt_app _ _ (nextId s1)); try done.
    - weaken_bound Hb1.
    - weaken_bound Hb2. }
  split; [| split; [| split; [| split; [| split]]]].
  - rewrite run_app. simpl fst. apply created_ids_app.
  - exact Hsorted.
  - by apply StronglySorted_lt_NoDup.
  - exact Hle2.
  - intros i Hi.
    rewrite Forall_forall in Hb1, Hb2. specialize (Hb2 i Hi).
    split; [| split].
    + intros Hi1. specialize (Hb1 i Hi1). lia.
    + intros Hseed. simpl in Hseed, Hle1.
      repeat (apply elem_of_cons in Hseed as [-> | Hseed]; [lia |]).
      by apply elem_of_nil in Hseed.
    + intros Hstore. apply list_elem_of_fmap in Hstore as (t & -> & Ht).
      pose proof (ids_below_counter _ Hinv) as Hlt.
      rewrite Forall_forall in Hlt. specialize (Hlt t Ht). lia.
  - intros sid t Ht Hreturned.
    destruct (run_created after (snd (deleteTodo sid s1))) as (_ & Hb & _).
    rewrite Forall_forall in Hb. specialize (Hb _ Hreturned).
    rewrite deleteTodo_eq in Hb. simpl in Hb.
    pose proof (ids_below_counter _ Hinv) as Hlt.
    rewrite Forall_forall in Hlt. specialize (Hlt t Ht). lia.
Qed.

(** C4, at a concrete run: record 2 is deleted, two creates follow and
    return 4 and 5. *)
Lemma created_ids_strictly_increase_witness :
  created_ids
    (fst (run ([DeleteTodo "2"]
               ++ [CreateTodo (Some {| CreateTodoDto.description := Some "y" |});
                   CreateTodo (Some {| CreateTodoDto.description := Some "z" |})])
              initial))
  = [] ++ [4; 5].
Proof.
  exact (proj1 (created_ids_strictly_increase
                  [DeleteTodo "2"]
                  [CreateTodo (Some {| CreateTodoDto.description := Some "y" |});
                   CreateTodo (Some {| CreateTodoDto.description := Some "z" |})])).
Defined.

(** C5.  For a non-empty description, [createTodo] builds the record with the
    counter's value as id, the given description and [isDone = false],
    appends it after all the records already there, returns it, and raises
    the counter by exactly one. *)
Theorem createTodo_appends (d : string) (s : Store) :
  d <> "" ->
  let newTodo := {| id := nextId s; description := d; isDone := false |} in
  createTodo (Some {| CreateTodoDto.description := Some d |}) s
  = (Return newTodo,
     {| todos := todos s ++ [newTodo]; nextId := nextId s + 1 |}).
Proof. intros Hd. by destruct d. Qed.

Lemma createTodo_appends_witness :
  createTodo (Some {| CreateTodoDto.description := Some "y" |}) initial
  = (Return {| id := 4; description := "y"; isDone := false |},
     {| todos := todos initial ++ [ {| id := 4; description := "y"; isDone := false |} ];
        nextId := 4 + 1 |}).
Proof. exact (createTodo_appends "y" initial ltac:(discriminate)). Defined.

(** C6.  On every store, a create whose body is missing, whose description is
    missing, or whose description is the empty string throws
    [BadRequestException] and returns the store it was given: same records,
    same counter. *)
Theorem createTodo_rejects_empty (s : Store) :
  let rejected := (Throw (BadRequestException "Description cannot be empty"), s) in
  createTodo None s = rejected
  /\ createTodo (Some {| CreateTodoDto.description := None |}) s = rejected
  /\ createTodo (Some {| CreateTodoDto.description := Some "" |}) s = rejected.
Proof. done. Qed.

(** C7.  Descriptions should never be empty, and an update that provides the
    empty description should be rejected.  [updateTodo] only tests the
    description against [undefined]: the empty string is stored, in a store
    reachable from the initial one, and [getTodoById] then shows it. *)
Theorem updateTodo_stores_empty_description :
  let patch := {| UpdateTodoDto.description := Some ""; UpdateTodoDto.isDone := None |} in
  let s' := snd (updateTodo "1" patch initial) in
  fst (updateTodo "1" patch initial)
  = Return (Some {| id := 1; description := ""; isDone := true |})
  /\ reachable s'
  /\ getTodoById "1" s' = Some {| id := 1; description := ""; isDone := true |}.
Proof.
  split; [by vm_compute |]. split; [| by vm_compute].
  by exists [UpdateTodo "1" {| UpdateTodoDto.description := Some "";
                               UpdateTodoDto.isDone := None |}].
Qed.

(** C8.  The scenario on the seeded store.  The update of record 2 sets its
    description to ["x"] but also turns [isDone] from [false] to [true]; the
    rest goes as stated: after the delete the list holds ids 1 and 3 in that
    order, and the create returns id 4. *)
Theorem scenario_update_delete_create :
  getTodoById "2" initial
  = Some {| id := 2; description := "Finish NestJS project"; isDone := false |}
  /\ run [ UpdateTodo "2" {| UpdateTodoDto.description := Some "x";
                             UpdateTodoDto.isDone := None |};
           DeleteTodo "2";
           GetAllTodos;
           CreateTodo (Some {| CreateTodoDto.description := Some "y" |}) ]
         initial
     = ([ Updated (Return (Some {| id := 2; description := "x"; isDone := true |}));
          Deleted (Some {| message := "Todo with ID 2 successfully deleted." |});
          Listed [ {| id := 1; description := "Buy groceries"; isDone := false |};
                   {| id := 3; description := "Walk the dog"; isDone := true |} ];
          Created (Return {| id := 4; description := "y"; isDone := false |}) ],
        {| todos := [ {| id := 1; description := "Buy groceries"; isDone := false |};
                      {| id := 3; description := "Walk the dog"; isDone := true |};
                      {| id := 4; description := "y"; isDone := false |} ];
           nextId := 5 |}).
Proof. by vm_compute. Qed.

(** The frame of an update with the patch [{isDone: true}], for any store
    whose ids are pairwise distinct. *)
Lemma updateTodo_isDone_true_distinct (s : Store) (r : TodoItem) (sid : string) :
  NoDup (id <$> todos s) ->
  r ∈ todos s ->
  has_id (JS.Number sid) r = true ->
  let patch := {| UpdateTodoDto.description := None; UpdateTodoDto.isDone := Some true |} in
  let r' := {| id := id r; description := description r; isDone := true |} in
  exists i : nat,
    todos s !! i = Some r
    /\ updateTodo sid patch s
       = (Return (Some r'), {| todos := <[i := r']> (todos s); nextId := nextId s |})
    /\ (forall j : nat, j <> i ->
          todos (snd (updateTodo sid patch s)) !! j = todos s !! j)
    /\ length (todos (snd (updateTodo sid patch s))) = length (todos s).
Proof.
  intros Hnd Hin Hr patch r'.
  pose proof (findIndex_elem _ _ _ Hin Hr) as Hfound.
  destruct (findIndex_found _ _ Hfound) as (j & x & Hj & Hx & Hpx & _).
  apply list_elem_of_lookup in Hin as [i Hi].
  assert (Hid : id x = id r) by (eapply strict_equal_of_Z_inj; eauto).
  assert (j = i) as ->.
  { eapply NoDup_lookup; [exact Hnd | |].
    - by rewrite list_lookup_fmap, Hx.
    - rewrite list_lookup_fmap, Hi. simpl. by rewrite Hid. }
  assert (x = r) as -> by congruence.
  pose proof (updateTodo_present sid patch s i r Hj Hi) as Hupd.
  exists i. rewrite Hupd. simpl.
  split; [done |]. split; [done |]. split.
  - intros k Hk. by apply list_lookup_insert_ne.
  - apply length_insert.
Qed.

(** C9.  In every store the controller can be in, take a record [r] of the
    collection and any id string whose numeric value is [r]'s id.
    [updateTodo] with the patch [{isDone: true}] returns [r] with [isDone]
    set and the same id and description, puts it at [r]'s position, and
    leaves every other position, the length of the collection and the
    counter as they were. *)
Theorem updateTodo_isDone_true_frame (s : Store) (r : TodoItem) (sid : string) :
  reachable s ->
  r ∈ todos s ->
  has_id (JS.Number sid) r = true ->
  let patch := {| UpdateTodoDto.description := None; UpdateTodoDto.isDone := Some true |} in
  let r' := {| id := id r; description := description r; isDone := true |} in
  exists i : nat,
    todos s !! i = Some r
    /\ updateTodo sid patch s
       = (Return (Some r'), {| todos := <[i := r']> (todos s); nextId := nextId s |})
    /\ (forall j : nat, j <> i ->
          todos (snd (updateTodo sid patch s)) !! j = todos s !! j)
    /\ length (todos (snd (updateTodo sid patch s))) = length (todos s).
Proof.
  intros Hreach. apply updateTodo_isDone_true_distinct.
  apply ids_distinct. by apply reachable_inv.
Qed.

Lemma updateTodo_isDone_true_frame_witness :
  exists i : nat,
    todos initial !! i
    = Some {| id := 2; description := "Finish NestJS project"; isDone := false |}
    /\ updateTodo "2" {| UpdateTodoDto.description := None;
                         UpdateTodoDto.isDone := Some true |} initial
       = (Return (Some {| id := 2; description := "Finish NestJS project"; isDone := true |}),
          {| todos := <[i := {| id := 2; description := "Finish NestJS project";
                                isDone := true |}]> (todos initial);
             nextId := 4 |})
    /\ (forall j : nat, j <> i ->
          todos (snd (updateTodo "2" {| UpdateTodoDto.description := None;
                                        UpdateTodoDto.isDone := Some true |} initial)) !! j
          = todos initial !! j)
    /\ length (todos (snd (updateTodo "2" {| UpdateTodoDto.description := None;
                                             UpdateTodoDto.isDone := Some true |} initial)))
       = length (todos initial).
Proof.
  apply (updateTodo_isDone_true_frame initial
           {| id := 2; description := "Finish NestJS project"; isDone := false |} "2").
  - exists []. reflexivity.
  - simpl. apply list_elem_of_further, list_elem_of_here.
  - vm_compute. reflexivity.
Defined.

(** C10.  When the numeric value of the id string is [===] to the id of no
    record, [findIndex] answers [-1] and [deleteTodo] hands it to [splice]:
    the handler still returns its success message, and the collection loses
    its last record (an empty collection stays empty); the counter is
    untouched. *)
Theorem deleteTodo_no_match (sid : string) (s : Store) :
  (forall t, t ∈ todos s -> has_id (JS.Number sid) t = false) ->
  JS.findIndex (has_id (JS.Number sid)) (todos s) = -1
  /\ fst (deleteTodo sid s)
     = Some {| message := ("Todo with ID " ++ sid ++ " successfully deleted.")%string |}
  /\ snd (deleteTodo sid s) = {| todos := removelast (todos s); nextId := nextId s |}
  /\ (forall l x, todos s = l ++ [x] -> todos (snd (deleteTodo sid s)) = l).
Proof.
  intros Hnone. apply Forall_forall in Hnone.
  pose proof (findIndex_none _ _ Hnone) as Hidx.
  rewrite deleteTodo_eq, Hidx, splice_minus_one. simpl.
  split; [done |]. split; [done |]. split; [done |].
  intros l x ->. apply removelast_last.
Qed.

Lemma deleteTodo_no_match_witness :
  JS.findIndex (has_id (JS.Number "99")) (todos initial) = -1
  /\ fst (deleteTodo "99" initial)
     = Some {| message := ("Todo with ID " ++ "99" ++ " successfully deleted.")%string |}
  /\ snd (deleteTodo "99" initial)
     = {| todos := removelast (todos initial); nextId := nextId initial |}
  /\ (forall l x, todos initial = l ++ [x] -> todos (snd (deleteTodo "99" initial)) = l).
Proof.
  apply (deleteTodo_no_match "99" initial).
  intros t Ht. simpl in Ht.
  repeat (apply elem_of_cons in Ht as [-> | Ht]; [vm_compute; reflexivity |]).
  by apply elem_of_nil in Ht.
Defined.

(** ** Further properties of the handlers *)

Section FirstMatch.
Context {A : Type} (p : A -> bool).

(** Both searches stop at the first element that satisfies the predicate. *)
Lemma findIndex_from_first (l : list A) (k : Z) (i : nat) (x : A) :
  l !! i = Some x -> p x = true ->
  Forall (fun y => p y = false) (take i l) ->
  JS.findIndex_from p l k = k + Z.of_nat i.
Proof.
  revert k i. induction l as [| y l IH]; intros k i Hx Hpx Hbefore; [done |].
  destruct i as [| i]; simpl in *.
  - injection Hx as ->. rewrite Hpx. lia.
  - apply Forall_cons in Hbefore as [Hy Hbefore]. rewrite Hy.
    rewrite (IH (k + 1) i Hx Hpx Hbefore). lia.
Qed.

Lemma findIndex_first (l : list A) (i : nat) (x : A) :
  l !! i = Some x -> p x = true ->
  Forall (fun y => p y = false) (take i l) ->
  JS.findIndex p l = Z.of_nat i.
Proof.
  intros. unfold JS.findIndex. by rewrite (findIndex_from_first l 0 i x).
Qed.

Lemma find_first (l : list A) (i : nat) (x : A) :
  l !! i = Some x -> p x = true ->
  Forall (fun y => p y = false) (take i l) ->
  JS.find p l = Some x.
Proof.
  revert i. induction l as [| y l IH]; intros i Hx Hpx Hbefore; [done |].
  destruct i as [| i]; simpl in *.
  - injection Hx as ->. by rewrite Hpx.
  - apply Forall_cons in Hbefore as [Hy Hbefore]. rewrite Hy. by apply (IH i).
Qed.

Lemma find_Some_elem (l : list A) (x : A) :
  JS.find p l = Some x -> x ∈ l /\ p x = true.
Proof.
  induction l as [| y l IH]; simpl; [done |].
  destruct (p y) eqn:Hy.
  - intros [= ->]. split; [apply list_elem_of_here | done].
  - intros H. destruct (IH H). split; [by apply list_elem_of_further | done].
Qed.

(** [find] and [findIndex] agree on whether there is a match, and on which
    element it is. *)
Lemma find_findIndex (l : list A) :
  (JS.find p l = None /\ JS.findIndex p l = -1)
  \/ exists (i : nat) (x : A),
       JS.find p l = Some x /\ JS.findIndex p l = Z.of_nat i
       /\ l !! i = Some x /\ p x = true
       /\ Forall (fun y => p y = false) (take i l).
Proof.
  destruct (decide (JS.findIndex p l = -1)) as [Hnone | Hsome].
  - left. split; [| done].
    destruct (JS.find p l) as [x |] eqn:Hfind; [| done].
    apply find_Some_elem in Hfind as [Hin Hpx].
    by destruct (findIndex_elem p l x Hin Hpx).
  - right. destruct (findIndex_found p l Hsome) as (i & x & Hi & Hx & Hpx & Hbefore).
    exists i, x. split; [by apply (find_first l i x) | done].
Qed.
End FirstMatch.

Lemma getTodoById_find (sid : string) (s : Store) :
  getTodoById sid s = JS.find (has_id (JS.Number sid)) (todos s).
Proof. unfold getTodoById. by destruct (JS.find _ _). Qed.

(** Whether a record matches depends on its id alone. *)
Lemma has_id_same_id (n : JS.number) (t t' : TodoItem) :
  id t = id t' -> has_id n t = has_id n t'.
Proof. unfold has_id. by intros ->. Qed.

(** With pairwise distinct ids, a matching record is the first match. *)
Lemma first_match_unique (n : JS.number) (l : list TodoItem) (r : TodoItem) :
  NoDup (id <$> l) -> r ∈ l -> has_id n r = true ->
  exists i : nat,
    l !! i = Some r
    /\ JS.findIndex (has_id n) l = Z.of_nat i
    /\ JS.find (has_id n) l = Some r
    /\ Forall (fun y => has_id n y = false) (take i l).
Proof.
  intros Hnd Hin Hr.
  destruct (find_findIndex (has_id n) l)
    as [[_ Hnone] | (j & x & Hfind & Hj & Hx & Hpx & Hbefore)].
  - by destruct (findIndex_elem _ _ _ Hin Hr).
  - apply list_elem_of_lookup in Hin as [i Hi].
    assert (Hid : id x = id r) by (eapply strict_equal_of_Z_inj; eauto).
    assert (j = i) as ->.
    { eapply NoDup_lookup; [exact Hnd | |].
      - by rewrite list_lookup_fmap, Hx.
      - rewrite list_lookup_fmap, Hi. simpl. by rewrite Hid. }
    assert (x = r) as -> by congruence.
    by exists i.
Qed.

(** X1.  In every store the controller can be in, [getTodoById] returns a
    record exactly when that record is in the collection and its id is
    [===] to the numeric value of the id string; it returns [null] exactly
    when no record of the collection matches. *)
Theorem getTodoById_spec (qs : list Request) (sid : string) :
  let s := snd (run qs initial) in
  (forall r, getTodoById sid s = Some r
             <-> r ∈ todos s /\ has_id (JS.Number sid) r = true)
  /\ (getTodoById sid s = None
      <-> forall t, t ∈ todos s -> has_id (JS.Number sid) t = false).
Proof.
  intros s. rewrite getTodoById_find.
  assert (Hnd : NoDup (id <$> todos s)) by apply ids_distinct, run_inv, initial_inv.
  split.
  - intros r. split.
    + apply find_Some_elem.
    + intros [Hin Hr].
      by destruct (first_match_unique _ _ _ Hnd Hin Hr) as (i & _ & _ & Hfind & _).
  - split.
    + intros Hnone t Ht.
      destruct (has_id (JS.Number sid) t) eqn:Hm; [| done].
      destruct (first_match_unique _ _ _ Hnd Ht Hm) as (i & _ & _ & Hfind & _).
      congruence.
    + intros Hnone. apply find_none. by apply Forall_forall.
Qed.


(** The store after an update that found its record at position [i]. *)
Lemma updateTodo_then (sid : string) (dto : UpdateTodoDto.t) (s : Store)
      (i : nat) (x : TodoItem) :
  JS.findIndex (has_id (JS.Number sid)) (todos s) = Z.of_nat i ->
  todos s !! i = Some x ->
  Forall (fun y => has_id (JS.Number sid) y = false) (take i (todos s)) ->
  has_id (JS.Number sid) x = true ->
  let l' := <[i := updated_record x dto]> (todos s) in
  l' !! i = Some (updated_record x dto)
  /\ has_id (JS.Number sid) (updated_record x dto) = true
  /\ Forall (fun y => has_id (JS.Number sid) y = false) (take i l').
Proof.
  intros Hi Hx Hbefore Hpx l'. subst l'. split; [| split].
  - apply list_lookup_insert_eq. by eapply lookup_lt_Some.
  - by rewrite (has_id_same_id _ _ x).
  - by rewrite take_insert_ge.
Qed.

(** X3.  A record returned by [updateTodo] is the record [getTodoById]
    returns for the same id string right after. *)
Theorem getTodoById_after_updateTodo (sid : string) (dto : UpdateTodoDto.t)
        (s : Store) (r : TodoItem) :
  fst (updateTodo sid dto s) = Return (Some r) ->
  getTodoById sid (snd (updateTodo sid dto s)) = Some r.
Proof.
  destruct (find_findIndex (has_id (JS.Number sid)) (todos s))
    as [[_ Hnone] | (i & x & _ & Hi & Hx & Hpx & Hbefore)].
  - by rewrite (updateTodo_absent _ _ _ Hnone).
  - rewrite (updateTodo_present _ _ _ _ _ Hi Hx). simpl. intros [= <-].
    destruct (updateTodo_then sid dto s i x Hi Hx Hbefore Hpx) as (Hx' & Hpx' & Hbefore').
    rewrite getTodoById_find. simpl.
    by apply (find_first _ _ i).
Qed.

Lemma getTodoById_after_updateTodo_witness :
  getTodoById "2" (snd (updateTodo "2" {| UpdateTodoDto.description := Some "x";
                                          UpdateTodoDto.isDone := Some false |} initial))
  = Some {| id := 2; description := "x"; isDone := true |}.
Proof.
  apply (getTodoById_after_updateTodo "2"
           {| UpdateTodoDto.description := Some "x"; UpdateTodoDto.isDone := Some false |}
           initial).
  vm_compute. reflexivity.
Defined.

(** X4.  [updateTodo] is idempotent: repeating an update with the same id
    string and the same patch returns the same response and leaves the store
    as the first update left it. *)
Theorem updateTodo_idempotent (sid : string) (dto : UpdateTodoDto.t) (s : Store) :
  updateTodo sid dto (snd (updateTodo sid dto s))
  = (fst (updateTodo sid dto s), snd (updateTodo sid dto s)).
Proof.
  destruct (find_findIndex (has_id (JS.Number sid)) (todos s))
    as [[_ Hnone] | (i & x & _ & Hi & Hx & Hpx & Hbefore)].
  - rewrite (updateTodo_absent _ _ _ Hnone). simpl.
    by rewrite (updateTodo_absent _ _ _ Hnone).
  - rewrite (updateTodo_present _ _ _ _ _ Hi Hx). simpl.
    destruct (updateTodo_then sid dto s i x Hi Hx Hbefore Hpx) as (Hx' & Hpx' & Hbefore').
    pose proof (findIndex_first _ _ _ _ Hx' Hpx' Hbefore') as Hi'.
    rewrite (updateTodo_present sid dto
               {| todos := <[i := updated_record x dto]> (todos s); nextId := nextId s |}
               i (updated_record x dto) Hi' Hx').
    simpl. rewrite list_insert_insert_eq.
    assert (Hsame : updated_record (updated_record x dto) dto = updated_record x dto).
    { unfold updated_record. simpl. by destruct (UpdateTodoDto.description dto). }
    by rewrite Hsame.
Qed.

(** *** Deleting *)

(** [splice(i, 1)] at a position of the array removes the element there. *)
Lemma splice_one_at {A : Type} (i : nat) (l : list A) :
  (i < length l)%nat -> snd (JS.splice (Z.of_nat i) 1 l) = delete i l.
Proof.
  intros Hi. unfold JS.splice. simpl snd.
  replace (Z.of_nat i <? 0) with false by (symmetry; apply Z.ltb_ge; lia).
  rewrite delete_take_drop. f_equal; f_equal; lia.
Qed.

(** What [deleteTodo] leaves: the collection without its last record when
    nothing matches, without the first match otherwise. *)
Lemma deleteTodo_cases (sid : string) (s : Store) :
  (JS.findIndex (has_id (JS.Number sid)) (todos s) = -1
   /\ snd (deleteTodo sid s) = {| todos := removelast (todos s); nextId := nextId s |})
  \/ exists (i : nat) (x : TodoItem),
       todos s !! i = Some x
       /\ has_id (JS.Number sid) x = true
       /\ snd (deleteTodo sid s) = {| todos := delete i (todos s); nextId := nextId s |}.
Proof.
  rewrite deleteTodo_eq. cbn [snd].
  destruct (find_findIndex (has_id (JS.Number sid)) (todos s))
    as [[_ Hnone] | (i & x & _ & Hi & Hx & Hpx & _)].
  - left. by rewrite Hnone, splice_minus_one.
  - right. exists i, x. rewrite Hi, splice_one_at; [done |].
    by eapply lookup_lt_Some.
Qed.

(** Two records of a collection with pairwise distinct ids that share their
    id are the same record. *)
Lemma same_id_same_record (l : list TodoItem) (t r : TodoItem) :
  NoDup (id <$> l) -> t ∈ l -> r ∈ l -> id t = id r -> t = r.
Proof.
  intros Hnd Ht Hr Hid.
  apply list_elem_of_lookup in Ht as [j Hj].
  apply list_elem_of_lookup in Hr as [i Hi].
  assert (j = i) as ->; [| congruence].
  eapply NoDup_lookup; [exact Hnd | |].
  - by rewrite list_lookup_fmap, Hj.
  - rewrite list_lookup_fmap, Hi. simpl. by rewrite Hid.
Qed.

(** X5.  In every store the controller can be in, deleting with an id string
    whose numeric value is the id of a record [r] removes [r] and nothing
    else: the other records stay, in their order, the counter is untouched,
    and [getTodoById] with the same id string then answers [null]. *)
Theorem deleteTodo_removes_match (s : Store) (r : TodoItem) (sid : string) :
  reachable s ->
  r ∈ todos s ->
  has_id (JS.Number sid) r = true ->
  exists i : nat,
    todos s !! i = Some r
    /\ snd (deleteTodo sid s) = {| todos := delete i (todos s); nextId := nextId s |}
    /\ (forall t, t ∈ todos (snd (deleteTodo sid s)) <-> t ∈ todos s /\ t <> r)
    /\ getTodoById sid (snd (deleteTodo sid s)) = None.
Proof.
  intros Hreach Hin Hr.
  pose proof (ids_distinct _ (reachable_inv _ Hreach)) as Hnd.
  destruct (first_match_unique _ _ _ Hnd Hin Hr) as (i & Hi & Hidx & _ & _).
  assert (Hdel : snd (deleteTodo sid s)
                 = {| todos := delete i (todos s); nextId := nextId s |}).
  { rewrite deleteTodo_eq. cbn [snd]. rewrite Hidx, splice_one_at; [done |].
    by eapply lookup_lt_Some. }
  assert (Hmem : forall t, t ∈ delete i (todos s) <-> t ∈ todos s /\ t <> r).
  { intros t.
    pose proof (NoDup_fmap_1 id _ Hnd) as Hnd'.
    rewrite <- (take_drop_middle _ _ _ Hi) in Hnd' |- * at 2.
    rewrite delete_take_drop.
    apply NoDup_app in Hnd' as (_ & Hnot & Hnd2).
    apply NoDup_cons in Hnd2 as [Hnot2 _].
    rewrite !elem_of_app, elem_of_cons. split.
    - intros [Ht | Ht].
      + split; [by left |]. intros ->. apply (Hnot r Ht), list_elem_of_here.
      + split; [by right; right |]. by intros ->.
    - intros [[Ht | [-> | Ht]] Hne]; [by left | done | by right]. }
  exists i. rewrite Hdel. simpl.
  split; [done |]. split; [done |]. split; [done |].
  rewrite getTodoById_find. simpl. apply find_none, Forall_forall.
  intros t Ht. apply Hmem in Ht as [Ht Hne].
  destruct (has_id (JS.Number sid) t) eqn:Hm; [| done].
  destruct Hne. apply (same_id_same_record (todos s)); try done.
  eapply strict_equal_of_Z_inj; eauto.
Qed.

Lemma deleteTodo_removes_match_witness :
  exists i : nat,
    todos initial !! i
    = Some {| id := 2; description := "Finish NestJS project"; isDone := false |}
    /\ snd (deleteTodo "2" initial)
       = {| todos := delete i (todos initial); nextId := nextId initial |}
    /\ (forall t, t ∈ todos (snd (deleteTodo "2" initial))
                  <-> t ∈ todos initial
                      /\ t <> {| id := 2; description := "Finish NestJS project";
                                 isDone := false |})
    /\ getTodoById "2" (snd (deleteTodo "2" initial)) = None.
Proof.
  apply (deleteTodo_removes_match initial
           {| id := 2; description := "Finish NestJS project"; isDone := false |} "2").
  - exists []. reflexivity.
  - simpl. apply list_elem_of_further, list_elem_of_here.
  - vm_compute. reflexivity.
Defined.

(** X6.  Whatever the id string, [deleteTodo] answers with its success
    message, leaves the counter alone, and takes exactly one record out of a
    non-empty collection (none out of an empty one); the records that stay
    keep their order. *)
Theorem deleteTodo_always_removes_one (sid : string) (s : Store) :
  fst (deleteTodo sid s)
  = Some {| message := ("Todo with ID " ++ sid ++ " successfully deleted.")%string |}
  /\ nextId (snd (deleteTodo sid s)) = nextId s
  /\ length (todos (snd (deleteTodo sid s))) = pred (length (todos s))
  /\ sublist (todos (snd (deleteTodo sid s))) (todos s).
Proof.
  split; [by rewrite deleteTodo_eq |].
  split; [by rewrite deleteTodo_eq |].
  split.
  - destruct (deleteTodo_cases sid s) as [[_ ->] | (i & x & Hx & _ & ->)]; simpl.
    + rewrite removelast_firstn_len, length_take. lia.
    + rewrite length_delete by eauto. lia.
  - rewrite deleteTodo_eq. apply splice_sublist.
Qed.

(** *** The counter and the listing order *)

(** A request that creates nothing leaves the counter where it was. *)
Lemma handle_counter_same (q : Request) (s : Store) :
  created_id (fst (handle q s)) = None -> nextId (snd (handle q s)) = nextId s.
Proof.
  destruct q as [| sid | body | sid body | sid]; unfold handle.
  - done.
  - done.
  - destruct (createTodo_cases body s) as [-> | (d & _ & ->)]; done.
  - intros _. pose proof (updateTodo_ids sid body s) as [_ Hn].
    by destruct (updateTodo sid body s).
  - intros _. by rewrite deleteTodo_eq.
Qed.

(** X7.  From any store, the successful creates of a run hand out
    consecutive ids: the [k]-th one returns the counter's starting value plus
    [k], and the counter ends at its starting value plus the number of
    successful creates.  Rejected creates, updates, deletes and reads do not
    consume ids. *)
Theorem created_ids_consecutive (qs : list Request) (s : Store) :
  (forall (k : nat) (i : Z),
      created_ids (fst (run qs s)) !! k = Some i -> i = nextId s + Z.of_nat k)
  /\ nextId (snd (run qs s))
     = nextId s + Z.of_nat (length (created_ids (fst (run qs s)))).
Proof.
  revert s. induction qs as [| q qs IH]; intros s.
  - simpl. split; [done | lia].
  - rewrite run_cons. cbn [fst snd].
    destruct (handle_counter q s) as [_ Hcreated].
    destruct (IH (snd (handle q s))) as [Hnth Hlast].
    rewrite created_ids_cons.
    destruct (created_id (fst (handle q s))) as [j |] eqn:Hj.
    + destruct (Hcreated j eq_refl) as [-> Hnext]. split.
      * intros [| k] i Hk; simpl in Hk.
        -- injection Hk as <-. lia.
        -- rewrite (Hnth k i Hk). lia.
      * rewrite Hlast. simpl length. lia.
    + pose proof (handle_counter_same q s Hj) as Hsame.
      rewrite Hsame in Hnth, Hlast. done.
Qed.

Lemma StronglySorted_lt_sublist (l1 l2 : list Z) :
  sublist l1 l2 -> StronglySorted Z.lt l2 -> StronglySorted Z.lt l1.
Proof.
  induction 1 as [| x l1 l2 Hsub IH | x l1 l2 Hsub IH]; intros Hs; [done | |].
  - apply StronglySorted_inv in Hs as [Hs Hx].
    constructor; [by apply IH |].
    rewrite Forall_forall in Hx |- *. intros y Hy.
    apply Hx. by eapply elem_of_sublist.
  - apply StronglySorted_inv in Hs as [Hs _]. by apply IH.
Qed.

Lemma handle_sorted (q : Request) (s : Store) :
  store_inv s ->
  StronglySorted Z.lt (id <$> todos s) ->
  StronglySorted Z.lt (id <$> todos (snd (handle q s))).
Proof.
  intros [Hlt _] Hs.
  destruct q as [| sid | body | sid body | sid]; unfold handle; try done.
  - destruct (createTodo_cases body s) as [-> | (d & _ & ->)]; [done |].
    simpl. rewrite fmap_app.
    apply (StronglySorted_lt_app _ _ (nextId s)); [done | | |].
    + repeat constructor.
    + by apply Forall_fmap.
    + repeat constructor. simpl. lia.
  - pose proof (updateTodo_ids sid body s) as [Hids _].
    destruct (updateTodo sid body s). simpl in *. by rewrite Hids.
  - rewrite deleteTodo_eq. simpl.
    eapply StronglySorted_lt_sublist; [| exact Hs].
    apply fmap_sublist, splice_sublist.
Qed.

Lemma run_sorted (qs : list Request) (s : Store) :
  store_inv s ->
  StronglySorted Z.lt (id <$> todos s) ->
  StronglySorted Z.lt (id <$> todos (snd (run qs s))).
Proof.
  revert s. induction qs as [| q qs IH]; intros s Hinv Hs; [done |].
  rewrite run_cons. simpl. apply IH; [by apply handle_inv | by apply handle_sorted].
Qed.

(** X8.  After any sequence of requests on the initial store, [getAllTodos]
    lists the records by strictly increasing id, that is in the order they
    were created, every listed id is below the counter, and the counter is
    at least its initial value 4. *)
Theorem getAllTodos_sorted_by_id (qs : list Request) :
  let s := snd (run qs initial) in
  StronglySorted Z.lt (id <$> getAllTodos s)
  /\ Forall (fun t => id t < nextId s) (getAllTodos s)
  /\ 4 <= nextId s.
Proof.
  intros s. split; [| split].
  - apply run_sorted; [apply initial_inv |].
    simpl. repeat (constructor; [| repeat constructor; lia]). constructor.
  - apply ids_below_counter, run_inv, initial_inv.
  - by destruct (run_created qs initial) as [Hle _].
Qed.

(** *** What the handlers never do to a record *)




(** A record found after a step under an id that was already minted comes
    from a record with that id before the step, and is done if that one
    was. *)
Lemma handle_origin (q : Request) (s : Store) (t' : TodoItem) :
  t' ∈ todos (snd (handle q s)) ->
  id t' < nextId s ->
  exists t, t ∈ todos s /\ id t = id t' /\ (isDone t = true -> isDone t' = true).
Proof.
  intros Hin Hlt.
  destruct q as [| sid | body | sid body | sid]; unfold handle in Hin.
  - by exists t'.
  - by exists t'.
  - destruct (createTodo_cases body s) as [Heq | (d & _ & Heq)]; rewrite Heq in Hin.
    + by exists t'.
    + simpl in Hin. apply elem_of_app in Hin as [Hin | Hin]; [by exists t' |].
      apply list_elem_of_singleton in Hin. subst t'. simpl in Hlt. lia.
  - destruct (updateTodo_cases sid body s) as [Heq | (i & x & Hx & _ & Heq)];
      rewrite Heq in Hin.
    + by exists t'.
    + simpl in Hin. apply list_elem_of_lookup in Hin as [j Hj].
      destruct (decide (j = i)) as [-> | Hne].
      * rewrite list_lookup_insert_eq in Hj by (by eapply lookup_lt_Some).
        injection Hj as <-. exists x. split; [| done].
        apply list_elem_of_lookup. by exists i.
      * rewrite list_lookup_insert_ne in Hj by done.
        exists t'. split; [| done]. apply list_elem_of_lookup. by exists j.
  - rewrite deleteTodo_eq in Hin. simpl in Hin.
    exists t'. split; [| done].
    eapply elem_of_sublist; [exact Hin | apply splice_sublist].
Qed.

Lemma run_origin (qs : list Request) (s : Store) (t' : TodoItem) :
  t' ∈ todos (snd (run qs s)) ->
  id t' < nextId s ->
  exists t, t ∈ todos s /\ id t = id t' /\ (isDone t = true -> isDone t' = true).
Proof.
  revert s. induction qs as [| q qs IH]; intros s Hin Hlt; [by exists t' |].
  rewrite run_cons in Hin. simpl in Hin.
  destruct (handle_counter q s) as [Hle _].
  destruct (IH _ Hin ltac:(lia)) as (t1 & Hin1 & Hid1 & Hdone1).
  destruct (handle_origin q s t1 Hin1 ltac:(lia)) as (t & Hin0 & Hid0 & Hdone0).
  exists t. split; [done |]. split; [congruence | auto].
Qed.

(** X10.  No handler ever clears [isDone]: if a record of the store is done
    at some point of a run from the initial store, then at every later point
    the record with that id, as long as there is one, is done. *)
Theorem isDone_never_cleared (before after : list Request) (t t' : TodoItem) :
  t ∈ todos (snd (run before initial)) ->
  t' ∈ todos (snd (run after (snd (run before initial)))) ->
  id t' = id t ->
  isDone t = true ->
  isDone t' = true.
Proof.
  intros Ht Ht' Hid Hdone.
  pose proof (run_inv before initial initial_inv) as [Hlt Hnd].
  pose proof (proj1 (Forall_forall _ _) Hlt t Ht) as Hbelow. simpl in Hbelow.
  destruct (run_origin after _ t' Ht' ltac:(lia)) as (t0 & Hin0 & Hid0 & Hkeep).
  assert (t0 = t) as -> by (apply (same_id_same_record _ _ _ Hnd Hin0 Ht); congruence).
  by apply Hkeep.
Qed.

Lemma isDone_never_cleared_witness :
  isDone {| id := 1; description := "z"; isDone := true |} = true.
Proof.
  apply (isDone_never_cleared
           [ UpdateTodo "1" empty_patch ]
           [ DeleteTodo "2";
             UpdateTodo "1" {| UpdateTodoDto.description := Some "z";
                               UpdateTodoDto.isDone := Some false |} ]
           {| id := 1; description := "Buy groceries"; isDone := true |}
           {| id := 1; description := "z"; isDone := true |}).
  - vm_compute. apply list_elem_of_here.
  - vm_compute. apply list_elem_of_here.
  - reflexivity.
  - reflexivity.
Defined.

(** X11.  In every store the controller can be in, the record a successful
    [createTodo] returns is the one [getTodoById] finds right after, for any
    id string whose numeric value is the new id. *)
Theorem getTodoById_after_createTodo (s : Store) (d sid : string) :
  reachable s ->
  d <> "" ->
  let newTodo := {| id := nextId s; description := d; isDone := false |} in
  has_id (JS.Number sid) newTodo = true ->
  fst (createTodo (Some {| CreateTodoDto.description := Some d |}) s) = Return newTodo
  /\ getTodoById sid (snd (createTodo (Some {| CreateTodoDto.description := Some d |}) s))
     = Some newTodo.
Proof.
  intros Hreach Hd newTodo Hnew.
  pose proof (ids_below_counter _ (reachable_inv _ Hreach)) as Hlt.
  destruct d as [| c d]; [done |]. simpl.
  split; [done |].
  rewrite getTodoById_find. simpl. unfold JS.push.
  apply (find_first _ _ (length (todos s))).
  - by rewrite lookup_app_r, Nat.sub_diag.
  - exact Hnew.
  - rewrite take_app_length. apply Forall_forall. intros t Ht.
    destruct (has_id (JS.Number sid) t) eqn:Hm; [| done].
    assert (id t = nextId s)
      by (apply (strict_equal_of_Z_inj _ _ (JS.Number sid)); [exact Hm | exact Hnew]).
    pose proof (proj1 (Forall_forall _ _) Hlt t Ht) as Hbelow. simpl in Hbelow. lia.
Qed.

Lemma getTodoById_after_createTodo_witness :
  fst (createTodo (Some {| CreateTodoDto.description := Some "y" |}) initial)
  = Return {| id := 4; description := "y"; isDone := false |}
  /\ getTodoById " 4.0" (snd (createTodo (Some {| CreateTodoDto.description := Some "y" |})
                                         initial))
     = Some {| id := 4; description := "y"; isDone := false |}.
Proof.
  apply (getTodoById_after_createTodo initial "y" " 4.0").
  - exists []. reflexivity.
  - discriminate.
  - vm_compute. reflexivity.
Defined.

(** *** The list component *)

(** X12.  [TodoList] renders nothing for a missing or an empty list.  For a
    non-empty list it renders the heading and one [li] per todo, in the
    order of the list, and the key of each is its position in the list, not
    the todo's id. *)
Theorem TodoList_keys_are_positions (l : list View.Todo) :
  View.TodoList None = None
  /\ (View.TodoList (Some l) = None <-> l = [])
  /\ (l <> [] ->
      View.TodoList (Some l)
      = Some (View.Element "div" []
                [ (None, View.Element "h2" [] [ (None, View.Text "My TODO List") ]);
                  (None, View.Element "ul" [] (View.items l)) ]))
  /\ length (View.items l) = length l
  /\ (forall (k : nat) (t : View.Todo),
        l !! k = Some t ->
        View.items l !! k = Some (Some (Z.of_nat k), View.TodoItem t)).
Proof.
  split; [done |]. split; [by destruct l |]. split; [by destruct l |].
  unfold View.items. split; [apply length_imap |].
  intros k t Hk. by rewrite list_lookup_imap, Hk.
Qed.

(** X13.  The keys do not follow the records.  In every store the controller
    can be in, once [deleteTodo] has removed the record matching the id
    string, the list rendered from [getAllTodos] shows every record that was
    listed after the removed one under a key one less than before; the
    records listed before it keep their key. *)
Theorem deleteTodo_shifts_keys (s : Store) (r : TodoItem) (sid : string) :
  reachable s ->
  r ∈ todos s ->
  has_id (JS.Number sid) r = true ->
  exists i : nat,
    getAllTodos s !! i = Some r
    /\ forall (k : nat) (t : TodoItem),
         getAllTodos s !! k = Some t ->
         View.items (getAllTodos s) !! k = Some (Some (Z.of_nat k), View.TodoItem t)
         /\ ((k < i)%nat ->
             View.items (getAllTodos (snd (deleteTodo sid s))) !! k
             = Some (Some (Z.of_nat k), View.TodoItem t))
         /\ ((i < k)%nat ->
             View.items (getAllTodos (snd (deleteTodo sid s))) !! (k - 1)%nat
             = Some (Some (Z.of_nat k - 1), View.TodoItem t)).
Proof.
  intros Hreach Hin Hr.
  pose proof (ids_distinct _ (reachable_inv _ Hreach)) as Hnd.
  destruct (first_match_unique _ _ _ Hnd Hin Hr) as (i & Hi & Hidx & _ & _).
  exists i. split; [done |].
  intros k t Hk. unfold getAllTodos in *.
  rewrite deleteTodo_eq. cbn [snd todos].
  rewrite Hidx, splice_one_at by (by eapply lookup_lt_Some).
  unfold View.items. rewrite !list_lookup_imap. unfold View.Todo.
  split; [by rewrite Hk |]. split.
  - intros Hlt. by rewrite list_lookup_delete_lt, Hk.
  - intros Hlt. rewrite list_lookup_delete_ge by lia.
    replace (S (k - 1)) with k by lia. rewrite Hk. simpl.
    do 3 f_equal. lia.
Qed.

Lemma deleteTodo_shifts_keys_witness :
  exists i : nat,
    getAllTodos initial !! i
    = Some {| id := 2; description := "Finish NestJS project"; isDone := false |}
    /\ forall (k : nat) (t : TodoItem),
         getAllTodos initial !! k = Some t ->
         View.items (getAllTodos initial) !! k
         = Some (Some (Z.of_nat k), View.TodoItem t)
         /\ ((k < i)%nat ->
             View.items (getAllTodos (snd (deleteTodo "2" initial))) !! k
             = Some (Some (Z.of_nat k), View.TodoItem t))
         /\ ((i < k)%nat ->
             View.items (getAllTodos (snd (deleteTodo "2" initial))) !! (k - 1)%nat
             = Some (Some (Z.of_nat k - 1), View.TodoItem t)).
Proof.
  apply (deleteTodo_shifts_keys initial
           {| id := 2; description := "Finish NestJS project"; isDone := false |} "2").
  - exists []. reflexivity.
  - simpl. apply list_elem_of_further, list_elem_of_here.
  - vm_compute. reflexivity.
Defined.

(** *** Decimal id strings *)

Lemma decimal_digit_code (c : ascii) :
  JS.is_decimal_digit c = true -> 48 <= JS.code c <= 57.
Proof. unfold JS.is_decimal_digit. simpl. lia. Qed.

Lemma decimal_digit_not_white_space (c : ascii) :
  JS.is_decimal_digit c = true -> JS.is_white_space c = false.
Proof.
  intros H. apply decimal_digit_code in H. unfold JS.is_white_space. simpl. lia.
Qed.

Lemma span_all (p : ascii -> bool) (l : list ascii) :
  forallb p l = true -> JS.span p l = (l, []).
Proof.
  induction l as [| c l IH]; simpl; [done |].
  intros [Hc Hl]%andb_prop. by rewrite Hc, IH.
Qed.

Lemma span_stops (p : ascii -> bool) (c : ascii) (l : list ascii) :
  p c = false -> JS.span p (c :: l) = ([], c :: l).
Proof. intros H. simpl. by rewrite H. Qed.

(** A run of decimal digits has no white space to trim. *)
Lemma trim_digits (l : list ascii) :
  forallb JS.is_decimal_digit l = true -> JS.trim l = l.
Proof.
  intros Hl. unfold JS.trim.
  assert (Hws : forall c, c ∈ l -> JS.is_white_space c = false).
  { intros c Hc. apply decimal_digit_not_white_space.
    rewrite forallb_forall in Hl. by apply Hl, list_elem_of_In. }
  destruct l as [| c l]; [done |].
  rewrite span_stops by apply Hws, list_elem_of_here. cbn [snd].
  destruct (rev (c :: l)) as [| x xs] eqn:Hrev.
  - apply (f_equal (@rev ascii)) in Hrev. by rewrite rev_involutive in Hrev.
  - rewrite span_stops.
    + cbn [snd]. by rewrite <- Hrev, rev_involutive.
    + apply Hws. apply list_elem_of_In, in_rev. rewrite Hrev. by left.
Qed.

(** A run of decimal digits is read as an unsigned decimal literal without
    fraction or exponent. *)
Lemma numeric_literal_digits (l : list ascii) :
  JS.all_digits JS.is_decimal_digit l = true ->
  JS.numeric_literal l = JS.binary64 false (JS.digits_value 10 l) 1.
Proof.
  intros Hl.
  assert (Hne : l <> []) by (by intros ->).
  assert (Hall : forallb JS.is_decimal_digit l = true) by (by destruct l).
  assert (Hdec : JS.unsigned_decimal false l = JS.binary64 false (JS.digits_value 10 l) 1).
  { unfold JS.unsigned_decimal.
    assert (String.eqb (string_of_list_ascii l) "Infinity" = false) as ->.
    { destruct l as [| c l]; [done |]. simpl.
      destruct (Ascii.eqb_spec c "I") as [-> | _]; [| done].
      simpl in Hall. discriminate. }
    rewrite (span_all _ _ Hall). rewrite app_nil_r.
    destruct l as [| c l]; [done |]. simpl JS.exponent_part. cbn [length].
    replace (0 - Z.of_nat 0) with 0 by lia. simpl (0 <=? 0).
    by rewrite Z.pow_0_r, Z.mul_1_r. }
  unfold JS.numeric_literal.
  destruct l as [| z [| x ds]]; [done | exact Hdec |].
  simpl in Hall. apply andb_prop in Hall as [Hz Hall]. apply andb_prop in Hall as [Hx _].
  apply decimal_digit_code in Hz, Hx.
  replace (JS.code x =? 120) with false by (symmetry; apply Z.eqb_neq; lia).
  replace (JS.code x =? 88) with false by (symmetry; apply Z.eqb_neq; lia).
  replace (JS.code x =? 111) with false by (symmetry; apply Z.eqb_neq; lia).
  replace (JS.code x =? 79) with false by (symmetry; apply Z.eqb_neq; lia).
  replace (JS.code x =? 98) with false by (symmetry; apply Z.eqb_neq; lia).
  replace (JS.code x =? 66) with false by (symmetry; apply Z.eqb_neq; lia).
  replace (JS.code z =? 43) with false by (symmetry; apply Z.eqb_neq; lia).
  replace (JS.code z =? 45) with false by (symmetry; apply Z.eqb_neq; lia).
  rewrite !andb_false_r. exact Hdec.
Qed.

(** Every integer below [2^53] is a binary64 value: rounding leaves it as it
    is. *)
Lemma binary64_integer (m : Z) :
  0 <= m < 2 ^ 53 -> JS.strict_equal (JS.of_Z m) (JS.binary64 false m 1) = true.
Proof.
  intros Hm. unfold JS.binary64.
  destruct (Z.eqb_spec m 0) as [-> | Hne]; [done |].
  assert (Hpos : 0 < m) by lia.
  pose proof (Z.log2_nonneg m) as HL0.
  pose proof (proj1 (Z.log2_lt_pow2 m 53 Hpos) ltac:(lia)) as HL1.
  destruct (Z.log2_spec m Hpos) as [Hlow _].
  set (L := Z.log2 m) in *.
  change (Z.log2 1) with 0.
  replace (L - 0 - 52) with (L - 52) by lia.
  cbv zeta.
  replace (Z.max 0 (- (L - 52))) with (52 - L) by lia.
  replace (Z.max 0 (L - 52)) with 0 by lia.
  rewrite Z.pow_0_r, Z.mul_1_l, Z.div_1_r.
  assert (Hscaled : 2 ^ 52 <= m * 2 ^ (52 - L)).
  { replace (2 ^ 52) with (2 ^ L * 2 ^ (52 - L))
      by (rewrite <- Z.pow_add_r by lia; f_equal; lia).
    apply Z.mul_le_mono_nonneg_r; [apply Z.pow_nonneg; lia | done]. }
  replace (m * 2 ^ (52 - L) <? 2 ^ 52) with false by (symmetry; apply Z.ltb_ge; lia).
  replace (Z.max (L - 52) (-1074)) with (L - 52) by lia.
  replace (Z.max 0 (- (L - 52))) with (52 - L) by lia.
  replace (Z.max 0 (L - 52)) with 0 by lia.
  rewrite Z.pow_0_r, Z.mul_1_l.
  unfold JS.round_half_even. rewrite Z.div_1_r, Z.mod_1_r.
  change (2 * 0 <? 1) with true. cbv iota.
  replace (971 <? L - 52) with false by (symmetry; apply Z.ltb_ge; lia).
  replace (L - 52 =? 971) with false by (symmetry; apply Z.eqb_neq; lia).
  cbn [orb andb]. unfold JS.of_Z, JS.strict_equal.
  replace (Z.min 0 (L - 52)) with (L - 52) by lia.
  apply Z.eqb_eq.
  replace (0 - (L - 52)) with (52 - L) by lia.
  replace (L - 52 - (L - 52)) with 0 by lia.
  rewrite Z.pow_0_r. lia.
Qed.

Lemma digits_value_nonneg (l : list ascii) :
  forallb JS.is_decimal_digit l = true -> 0 <= JS.digits_value 10 l.
Proof.
  unfold JS.digits_value.
  assert (Hgen : forall acc, 0 <= acc -> forallb JS.is_decimal_digit l = true ->
                   0 <= fold_left (fun a d => a * 10 + JS.digit_value d) l acc).
  { induction l as [| c l IH]; intros acc Hacc Hl; simpl; [done |].
    simpl in Hl. apply andb_prop in Hl as [Hc Hl].
    apply IH; [| done].
    apply decimal_digit_code in Hc. unfold JS.digit_value.
    replace (JS.code c <=? 57) with true by (symmetry; apply Z.leb_le; lia). lia. }
  by apply Hgen.
Qed.

(** The numeric value of a run of decimal digits that denotes an integer
    below [2^53] is that integer. *)
Lemma Number_digits (ds : list ascii) (t : TodoItem) :
  JS.all_digits JS.is_decimal_digit ds = true ->
  JS.digits_value 10 ds < 2 ^ 53 ->
  has_id (JS.Number (string_of_list_ascii ds)) t = true
  <-> id t = JS.digits_value 10 ds.
Proof.
  intros Hds Hlt.
  assert (Hall : forallb JS.is_decimal_digit ds = true) by (by destruct ds).
  assert (HN : JS.Number (string_of_list_ascii ds)
               = JS.binary64 false (JS.digits_value 10 ds) 1).
  { unfold JS.Number.
    rewrite list_ascii_of_string_of_list_ascii, (trim_digits _ Hall).
    rewrite <- (numeric_literal_digits _ Hds). by destruct ds. }
  pose proof (digits_value_nonneg _ Hall) as Hnn.
  pose proof (binary64_integer _ (conj Hnn Hlt)) as Hexact.
  unfold has_id. rewrite HN. split.
  - intros Ht. by apply (strict_equal_of_Z_inj _ _ _ Ht Hexact).
  - by intros ->.
Qed.

(** X14.  An id string made of decimal digits only (leading zeros allowed)
    that denotes an integer [n] below [2^53] resolves to the record whose id
    is [n]: after any sequence of requests on the initial store,
    [getTodoById] returns a record for it exactly when that record is in
    the collection and has id [n]. *)
Theorem getTodoById_decimal_digits (qs : list Request) (ds : list ascii) (r : TodoItem) :
  JS.all_digits JS.is_decimal_digit ds = true ->
  JS.digits_value 10 ds < 2 ^ 53 ->
  getTodoById (string_of_list_ascii ds) (snd (run qs initial)) = Some r
  <-> r ∈ todos (snd (run qs initial)) /\ id r = JS.digits_value 10 ds.
Proof.
  intros Hds Hlt. set (s := snd (run qs initial)).
  assert (Hnd : NoDup (id <$> todos s)) by apply ids_distinct, run_inv, initial_inv.
  rewrite getTodoById_find, <- (Number_digits ds r Hds Hlt). split.
  - apply find_Some_elem.
  - intros [Hin Hr].
    by destruct (first_match_unique _ _ _ Hnd Hin Hr) as (i & _ & _ & Hfind & _).
Qed.

Lemma getTodoById_decimal_digits_witness :
  getTodoById "003" (snd (run [DeleteTodo "2"] initial))
  = Some {| id := 3; description := "Walk the dog"; isDone := true |}
  <-> {| id := 3; description := "Walk the dog"; isDone := true |}
        ∈ todos (snd (run [DeleteTodo "2"] initial))
      /\ 3 = JS.digits_value 10 (list_ascii_of_string "003").
Proof.
  apply (getTodoById_decimal_digits [DeleteTodo "2"] (list_ascii_of_string "003")
           {| id := 3; description := "Walk the dog"; isDone := true |}).
  - vm_compute. reflexivity.
  - vm_compute. reflexivity.
Defined.

(** *** More on updating and deleting *)

(** X15.  Whatever the id string and the patch, [updateTodo] changes no id,
    neither adds nor drops a record, and leaves every record that the id
    string does not match where and as it was. *)
Theorem updateTodo_frame (sid : string) (dto : UpdateTodoDto.t) (s : Store) :
  id <$> todos (snd (updateTodo sid dto s)) = id <$> todos s
  /\ forall (j : nat) (t : TodoItem),
       todos s !! j = Some t ->
       has_id (JS.Number sid) t = false ->
       todos (snd (updateTodo sid dto s)) !! j = Some t.
Proof.
  split; [apply updateTodo_ids |].
  intros j t Hj Ht.
  destruct (updateTodo_cases sid dto s) as [-> | (i & x & Hx & Hpx & ->)]; [done |].
  simpl. rewrite list_lookup_insert_ne; [done |].
  intros ->. congruence.
Qed.

(** Once the record matching a Number value is taken out of a collection
    with pairwise distinct ids, nothing matches that value. *)
Lemma no_match_after_delete (n : JS.number) (l : list TodoItem) (i : nat) (r : TodoItem) :
  NoDup (id <$> l) -> l !! i = Some r -> has_id n r = true ->
  Forall (fun t => has_id n t = false) (delete i l).
Proof.
  intros Hnd Hi Hr. apply Forall_forall. intros t Ht.
  destruct (has_id n t) eqn:Hm; [| done].
  assert (Hid : id t = id r) by (eapply strict_equal_of_Z_inj; eauto).
  rewrite <- (take_drop_middle _ _ _ Hi), fmap_app, fmap_cons in Hnd.
  apply NoDup_app in Hnd as (_ & Hnot & Hnd2).
  apply NoDup_cons in Hnd2 as [Hnot2 _].
  rewrite delete_take_drop in Ht. apply elem_of_app in Ht as [Ht | Ht].
  - destruct (Hnot (id t)); [by apply list_elem_of_fmap_2 |].
    rewrite Hid. apply list_elem_of_here.
  - destruct Hnot2. rewrite <- Hid. by apply list_elem_of_fmap_2.
Qed.

(** X16.  Deleting is not idempotent.  In every store the controller can be
    in, a delete that removed the record matching its id string, repeated
    with the same id string, finds no match, reports success again and
    removes the last of the remaining records. *)
Theorem deleteTodo_twice (s : Store) (r : TodoItem) (sid : string) :
  reachable s ->
  r ∈ todos s ->
  has_id (JS.Number sid) r = true ->
  exists i : nat,
    todos s !! i = Some r
    /\ deleteTodo sid (snd (deleteTodo sid s))
       = (Some {| message := ("Todo with ID " ++ sid ++ " successfully deleted.")%string |},
          {| todos := removelast (delete i (todos s)); nextId := nextId s |}).
Proof.
  intros Hreach Hin Hr.
  pose proof (ids_distinct _ (reachable_inv _ Hreach)) as Hnd.
  destruct (first_match_unique _ _ _ Hnd Hin Hr) as (i & Hi & Hidx & _ & _).
  exists i. split; [done |].
  rewrite (deleteTodo_eq sid s). cbn [snd].
  rewrite Hidx, splice_one_at by (by eapply lookup_lt_Some).
  rewrite deleteTodo_eq. cbn [todos nextId].
  rewrite (findIndex_none _ _ (no_match_after_delete _ _ _ _ Hnd Hi Hr)).
  by rewrite splice_minus_one.
Qed.

Lemma deleteTodo_twice_witness :
  exists i : nat,
    todos initial !! i = Some {| id := 1; description := "Buy groceries"; isDone := false |}
    /\ deleteTodo "1" (snd (deleteTodo "1" initial))
       = (Some {| message := ("Todo with ID " ++ "1" ++ " successfully deleted.")%string |},
          {| todos := removelast (delete i (todos initial)); nextId := nextId initial |}).
Proof.
  apply (deleteTodo_twice initial
           {| id := 1; description := "Buy groceries"; isDone := false |} "1").
  - exists []. reflexivity.
  - simpl. apply list_elem_of_here.
  - vm_compute. reflexivity.
Defined.
